(** * Blocks of the constant interpreter: clang/lib/AST/Interp/InterpBlock.h

    A shallow embedding of [Block] and [DeadBlock].  Addresses are [Z];
    the bytes behind block headers are a total memory [Mem : Z -> byte];
    reference nodes ([Pointer]) and relocated blocks ([DeadBlock]) live in
    finite maps keyed by their address, so the intrusive links [Prev]/[Next]
    are modelled as the optional addresses they are in C++. *)

From Stdlib Require Import ZArith Lia.
From Stdlib Require Import FunctionalExtensionality.
From stdpp Require Import base gmap list.

Open Scope Z_scope.

(** ** Data model *)

Definition Mem := Z -> Byte.byte.

(** The fields of [class Block]; [Desc] is the descriptor's address. *)
Record Block := mkBlock {
  Pointers : option Z;
  DeclID : option Z;
  IsStatic : bool;
  IsExtern : bool;
  IsDead : bool;
  IsInitialized : bool;
  Desc : Z
}.

(** [CtorFn(Block *B, std::byte *Data, bool IsConst, bool IsMutable,
    bool IsActive, const Descriptor *D)]: the callback sees the block (its
    address and the header as it is at the call), the data address, three
    flags and the descriptor address; its effect is on memory. *)
Definition BlockCtorFn := Z -> Block -> Z -> bool -> bool -> bool -> Z -> Mem -> Mem.
(** [DtorFn(Block *B, std::byte *Data, const Descriptor *D)]. *)
Definition BlockDtorFn := Z -> Block -> Z -> Z -> Mem -> Mem.

(** The parts of the (external) [Descriptor] that a block reads. *)
Record Descriptor := mkDescriptor {
  getSize : Z;
  getMetadataSize : Z;
  getAllocSize : Z;
  IsConst : bool;
  IsMutable : bool;
  IsTemporary : bool;
  CtorFn : option BlockCtorFn;
  DtorFn : option BlockDtorFn
}.

(** The fields of [class Pointer] the block code touches. *)
Record Pointer := mkPointer {
  Pointee : option Z;
  PPrev : option Z;
  PNext : option Z
}.

(** [class DeadBlock]: the list links and the embedded block [B]. *)
Record DeadBlock := mkDeadBlock {
  DPrev : option Z;
  DNext : option Z;
  DB : Block
}.

Definition set_Pointers (v : option Z) (b : Block) : Block :=
  mkBlock v (DeclID b) (IsStatic b) (IsExtern b) (IsDead b) (IsInitialized b) (Desc b).
Definition set_IsInitialized (v : bool) (b : Block) : Block :=
  mkBlock (Pointers b) (DeclID b) (IsStatic b) (IsExtern b) (IsDead b) v (Desc b).
Definition set_IsDead (v : bool) (b : Block) : Block :=
  mkBlock (Pointers b) (DeclID b) (IsStatic b) (IsExtern b) v (IsInitialized b) (Desc b).

Definition set_PPrev (v : option Z) (p : Pointer) : Pointer :=
  mkPointer (Pointee p) v (PNext p).
Definition set_PNext (v : option Z) (p : Pointer) : Pointer :=
  mkPointer (Pointee p) (PPrev p) v.
Definition set_Pointee (v : option Z) (p : Pointer) : Pointer :=
  mkPointer v (PPrev p) (PNext p).

Definition set_DPrev (v : option Z) (d : DeadBlock) : DeadBlock :=
  mkDeadBlock v (DNext d) (DB d).
Definition set_DNext (v : option Z) (d : DeadBlock) : DeadBlock :=
  mkDeadBlock (DPrev d) v (DB d).

(** [(unsigned)-1] on a 32-bit [unsigned]. *)
Definition UINT_MAX : Z := 2 ^ 32 - 1.
Definition to_unsigned (z : Z) : Z := z mod 2 ^ 32.

(** ** Constructors *)

(** [Block(const std::optional<unsigned> &DeclID, Descriptor *Desc,
    bool IsStatic = false, bool IsExtern = false)] *)
Definition Block_new_decl (declID : option Z) (desc : Z)
    (isStatic isExtern : bool) : Block :=
  mkBlock None declID isStatic isExtern false false desc.

(** [Block(Descriptor *Desc, bool IsStatic = false, bool IsExtern = false)
    : DeclID((unsigned)-1), ...] *)
Definition Block_new (desc : Z) (isStatic isExtern : bool) : Block :=
  mkBlock None (Some (to_unsigned (-1))) isStatic isExtern false false desc.

(** The protected [Block(Descriptor *Desc, bool IsExtern, bool IsStatic,
    bool IsDead) : IsStatic(IsStatic), IsExtern(IsExtern), IsDead(true)]:
    note the parameter order and that the [IsDead] argument is unused;
    [DeclID] keeps its default, an empty optional. *)
Definition Block_new_dead (desc : Z) (isExtern isStatic isDead : bool) : Block :=
  mkBlock None None isStatic isExtern true false desc.

(** ** Accessors and layout *)

Definition hasPointers (b : Block) : bool :=
  match Pointers b with Some _ => true | None => false end.
Definition getDeclID (b : Block) : option Z := DeclID b.
Definition isInitialized (b : Block) : bool := IsInitialized b.
Definition isStatic (b : Block) : bool := IsStatic b.
Definition isExtern (b : Block) : bool := IsExtern b.

(** [std::memset(p, 0, n)] *)
Definition memset0 (m : Mem) (p n : Z) : Mem :=
  fun a => if (p <=? a) && (a <? p + n) then Byte.x00 else m a.

(** [std::memcpy(dst, src, n)] *)
Definition memcpy (m : Mem) (dst src n : Z) : Mem :=
  fun a => if (dst <=? a) && (a <? dst + n) then m (src + (a - dst)) else m a.

Section Layout.
(** [sizeof(Block)] of the host ABI, and the descriptor heap. *)
Context (sizeof_Block : Z) (descs : Z -> Descriptor).

Definition getDescriptor (b : Block) : Descriptor := descs (Desc b).
Definition isTemporary (b : Block) : bool := IsTemporary (getDescriptor b).
Definition getBlockSize (b : Block) : Z := getAllocSize (getDescriptor b).

(** [rawData()]: [reinterpret_cast<std::byte *>(this) + sizeof(Block)]. *)
Definition rawData (this : Z) : Z := this + sizeof_Block.

(** [data()]: [rawData() + Desc->getMetadataSize()]. *)
Definition data (this : Z) (b : Block) : Z :=
  rawData this + getMetadataSize (getDescriptor b).

(** [invokeCtor()] *)
Definition invokeCtor (this : Z) (b : Block) (m : Mem) : Block * Mem :=
  let d := getDescriptor b in
  let m1 := memset0 m (rawData this) (getAllocSize d) in
  let m2 := match CtorFn d with
            | Some f => f this b (data this b) (IsConst d) (IsMutable d) true (Desc b) m1
            | None => m1
            end in
  (set_IsInitialized true b, m2).

(** [invokeDtor()] *)
Definition invokeDtor (this : Z) (b : Block) (m : Mem) : Block * Mem :=
  let d := getDescriptor b in
  let m1 := match DtorFn d with
            | Some f => f this b (data this b) (Desc b) m
            | None => m
            end in
  (set_IsInitialized false b, m1).
End Layout.

(** ** Intrusive doubly linked lists

    Both the chain of [Pointer]s hanging off [Block::Pointers] and the list
    of [DeadBlock]s hanging off the interpreter's root are intrusive doubly
    linked lists: every node stores [Prev] and [Next] addresses and a head
    address is kept outside.  The operations below are written once over
    the node accessors. *)

(** [if (X) X->field = v;] on the node at an optional address. *)
Definition alter_at {N : Type} (f : N -> N) (o : option Z) (H : gmap Z N) : gmap Z N :=
  match o with Some a => alter f a H | None => H end.

Section IntrusiveList.
Context {N : Type} (getPrev getNext : N -> option Z)
        (setPrev setNext : option Z -> N -> N).

Definition prev_of (l : list Z) (i : nat) : option Z :=
  match i with O => None | S j => l !! j end.

(** [l] is the list of node addresses reached from [hd] by [Next] links
    in [H], every node's [Prev] being its predecessor. *)
Definition dll (H : gmap Z N) (l : list Z) (hd : option Z) : Prop :=
  NoDup l /\ hd = head l /\
  forall i x, l !! i = Some x ->
    exists n, H !! x = Some n /\ getNext n = l !! S i /\ getPrev n = prev_of l i.

(** Link [p] in front of the list:
    [if (Head) Head->Prev = P; P->Next = Head; P->Prev = nullptr; Head = P;] *)
Definition dll_push (H : gmap Z N) (hd : option Z) (p : Z) : gmap Z N * option Z :=
  let H1 := alter_at (setPrev (Some p)) hd H in
  (alter (fun n => setPrev None (setNext hd n)) p H1, Some p).

(** Unlink [p]: [if (Head == P) Head = P->Next; if (P->Prev)
    P->Prev->Next = P->Next; if (P->Next) P->Next->Prev = P->Prev;] *)
Definition dll_unlink (H : gmap Z N) (hd : option Z) (p : Z) : gmap Z N * option Z :=
  match H !! p with
  | None => (H, hd)
  | Some n =>
      let H1 := alter_at (setNext (getNext n)) (getPrev n) H in
      let H2 := alter_at (setPrev (getPrev n)) (getNext n) H1 in
      (H2, if decide (hd = Some p) then getNext n else hd)
  end.

(** Put [q] in the place of [p]: [if (P->Prev) P->Prev->Next = Q;
    if (P->Next) P->Next->Prev = Q; if (Head == P) Head = Q;
    Q->Prev = P->Prev; Q->Next = P->Next;] *)
Definition dll_replace (H : gmap Z N) (hd : option Z) (p q : Z) : gmap Z N * option Z :=
  match H !! p with
  | None => (H, hd)
  | Some n =>
      let H1 := alter_at (setNext (Some q)) (getPrev n) H in
      let H2 := alter_at (setPrev (Some q)) (getNext n) H1 in
      (alter (fun m => setPrev (getPrev n) (setNext (getNext n) m)) q H2,
       if decide (hd = Some p) then Some q else hd)
  end.
End IntrusiveList.

(** ** Pointer chain management ([Block::addPointer] and friends) *)

(** Modelled from the spec: the bodies of [Block::addPointer],
    [Block::removePointer] and [Block::replacePointer] (InterpBlock.cpp) are
    not part of the sources; the spec has attach insert, detach remove and
    retarget substitute a node of the intrusive chain, the substitute taking
    the position of the old node. *)
Definition addPointer (b : Block) (ptrs : gmap Z Pointer) (p : Z)
    : Block * gmap Z Pointer :=
  let '(ptrs', hd) := dll_push set_PPrev set_PNext ptrs (Pointers b) p in
  (set_Pointers hd b, ptrs').

Definition removePointer (b : Block) (ptrs : gmap Z Pointer) (p : Z)
    : Block * gmap Z Pointer :=
  let '(ptrs', hd) := dll_unlink PPrev PNext set_PPrev set_PNext ptrs (Pointers b) p in
  (set_Pointers hd b, ptrs').

Definition replacePointer (b : Block) (ptrs : gmap Z Pointer) (old new : Z)
    : Block * gmap Z Pointer :=
  let '(ptrs', hd) :=
    dll_replace PPrev PNext set_PPrev set_PNext ptrs (Pointers b) old new in
  (set_Pointers hd b, ptrs').

(** The chain of a block: the reference nodes reached from [Pointers]. *)
Definition chain (ptrs : gmap Z Pointer) (b : Block) (l : list Z) : Prop :=
  dll PPrev PNext ptrs l (Pointers b).

Inductive ChainOp :=
| Attach (p : Z)
| Detach (p : Z)
| Retarget (old new : Z).

Definition chain_step (bp : Block * gmap Z Pointer) (op : ChainOp)
    : Block * gmap Z Pointer :=
  let '(b, ptrs) := bp in
  match op with
  | Attach p => addPointer b ptrs p
  | Detach p => removePointer b ptrs p
  | Retarget o n => replacePointer b ptrs o n
  end.

(** The contract of the chain operations (debug assertions in the C++):
    attach a node that exists and is not in the chain, detach a member,
    retarget a member to an existing non-member; [l'] is the chain after. *)
Definition chain_op_pre (ptrs : gmap Z Pointer) (l : list Z) (op : ChainOp)
    (l' : list Z) : Prop :=
  match op with
  | Attach p => (p ∉ l) /\ (is_Some (ptrs !! p)) /\ l' = p :: l
  | Detach p => exists k, l !! k = Some p /\ l' = delete k l
  | Retarget o n => exists k, l !! k = Some o /\ (n ∉ l) /\ (is_Some (ptrs !! n)) /\
                     l' = <[k := n]> l
  end.

Fixpoint chain_ops_pre (bp : Block * gmap Z Pointer) (l : list Z)
    (ops : list ChainOp) : Prop :=
  match ops with
  | [] => True
  | op :: ops' => exists l', chain_op_pre (snd bp) l op l' /\
                   chain_ops_pre (chain_step bp op) l' ops'
  end.

Definition run_chain (bp : Block * gmap Z Pointer) (ops : list ChainOp)
    : Block * gmap Z Pointer :=
  fold_left chain_step ops bp.

(** ** Block state and operation sequences

    One block at address [BThis] with its header [BBlk], the memory, and the
    reference nodes. *)

Record BState := mkBState {
  BThis : Z;
  BBlk : Block;
  BMem : Mem;
  BPtrs : gmap Z Pointer
}.

Inductive BlockOp :=
| OpCtor
| OpDtor
| OpChain (c : ChainOp).

Section BlockSteps.
Context (sizeof_Block : Z) (descs : Z -> Descriptor).

Definition block_step (s : BState) (op : BlockOp) : BState :=
  match op with
  | OpCtor =>
      let '(b, m) := invokeCtor sizeof_Block descs (BThis s) (BBlk s) (BMem s) in
      mkBState (BThis s) b m (BPtrs s)
  | OpDtor =>
      let '(b, m) := invokeDtor sizeof_Block descs (BThis s) (BBlk s) (BMem s) in
      mkBState (BThis s) b m (BPtrs s)
  | OpChain c =>
      let '(b, ptrs) := chain_step (BBlk s, BPtrs s) c in
      mkBState (BThis s) b (BMem s) ptrs
  end.

Definition run_block (s : BState) (ops : list BlockOp) : BState :=
  fold_left block_step ops s.
End BlockSteps.

(** The initialized flag a sequence of operations is expected to leave:
    that of its last construct or destroy, [init] if there is none. *)
Fixpoint last_ctor_dtor (init : bool) (ops : list BlockOp) : bool :=
  match ops with
  | [] => init
  | OpCtor :: ops' => last_ctor_dtor true ops'
  | OpDtor :: ops' => last_ctor_dtor false ops'
  | OpChain _ :: ops' => last_ctor_dtor init ops'
  end.

(** ** Relocated blocks ([DeadBlock])

    The interpreter state the relocation protocol touches: memory,
    reference nodes, the dead blocks by address and the list root. *)

Record World := mkWorld {
  WMem : Mem;
  WPtrs : gmap Z Pointer;
  WDead : gmap Z DeadBlock;
  WRoot : option Z
}.

(** [for (Pointer *P = Head; P; P = P->Next) P->Pointee = NewB;] with the
    number of reference nodes as fuel. *)
Fixpoint retarget_chain (fuel : nat) (cur : option Z) (nb : Z)
    (ptrs : gmap Z Pointer) : gmap Z Pointer :=
  match fuel, cur with
  | S fuel', Some p =>
      match ptrs !! p with
      | Some n => retarget_chain fuel' (PNext n) nb (<[p := set_Pointee (Some nb) n]> ptrs)
      | None => ptrs
      end
  | _, _ => ptrs
  end.

Section DeadBlocks.
(** [offsetof(DeadBlock, B)]: where the embedded block sits in the node. *)
Context (sizeof_Block offsetof_B : Z) (descs : Z -> Descriptor).

Definition embedded (daddr : Z) : Z := daddr + offsetof_B.

(** Modelled from the spec: the body of [DeadBlock::DeadBlock(DeadBlock
    *&Root, Block *Blk)] (InterpBlock.cpp) is not part of the sources.
    Following the spec, the node at the fresh address [daddr] gets a copy
    of the header of the block [blk] at [this], marked dead, and a copy of
    its metadata and data; it is linked at the head of the list; every
    reference node of the chain is re-targeted to the embedded block. *)
Definition DeadBlock_new (W : World) (daddr this : Z) (blk : Block) : World :=
  let nb := embedded daddr in
  let node := mkDeadBlock None None (set_IsDead true blk) in
  let '(dead, root) := dll_push set_DPrev set_DNext
                         (<[daddr := node]> (WDead W)) (WRoot W) daddr in
  let mem := memcpy (WMem W) (rawData sizeof_Block nb) (rawData sizeof_Block this)
               (getBlockSize descs blk) in
  let ptrs := retarget_chain (size (WPtrs W)) (Pointers blk) nb (WPtrs W) in
  mkWorld mem ptrs dead root.

(** Modelled from the spec: the body of [DeadBlock::free()]
    (InterpBlock.cpp) is not part of the sources.  It unlinks the node,
    patching its neighbours or the root, and reclaims the node. *)
Definition DeadBlock_free (W : World) (daddr : Z) : World :=
  let '(dead, root) := dll_unlink DPrev DNext set_DPrev set_DNext
                         (WDead W) (WRoot W) daddr in
  mkWorld (WMem W) (WPtrs W) (delete daddr dead) root.

(** The bytes a reference node sees: [Pointee->data()[i]]. *)
Definition deref_byte (W : World) (blk : Block) (p : Z) (i : Z) : option Byte.byte :=
  match WPtrs W !! p with
  | Some n => match Pointee n with
              | Some b => Some (WMem W (data sizeof_Block descs b blk + i))
              | None => None
              end
  | None => None
  end.
End DeadBlocks.

(** Sequences made of construct and destroy calls only. *)
Definition lifecycle_only (ops : list BlockOp) : bool :=
  forallb (fun op => match op with OpChain _ => false | _ => true end) ops.

(** ** Sample inputs *)

(** A descriptor with 8 bytes of metadata and 24 bytes of data, no
    callbacks. *)
Definition sample_descs : Z -> Descriptor :=
  fun _ => mkDescriptor 24 8 32 false false false None None.

Definition sample_block : Block := Block_new 0 false false.

(** Three unattached reference nodes. *)
Definition sample_ptrs : gmap Z Pointer :=
  {[ 1 := mkPointer None None None; 2 := mkPointer None None None;
     3 := mkPointer None None None ]}.

Definition sample_ops : list ChainOp := [Attach 1; Attach 2; Retarget 1 3; Detach 2].

(** A block at address 100 whose chain is [1; 2]; node 3 is unattached. *)
Definition linked_ptrs : gmap Z Pointer :=
  {[ 1 := mkPointer (Some 100) None (Some 2); 2 := mkPointer (Some 100) (Some 1) None;
     3 := mkPointer None None None ]}.

Definition linked_block : Block := set_Pointers (Some 1) sample_block.

Definition sample_world : World := mkWorld (fun _ => Byte.xaa) linked_ptrs ∅ None.

(** A list of three dead blocks 10, 20, 30. *)
Definition sample_dead : Block := Block_new_dead 0 false false true.

Definition dead_world : World :=
  mkWorld (fun _ => Byte.x00) ∅
    {[ 10 := mkDeadBlock None (Some 20) sample_dead;
       20 := mkDeadBlock (Some 10) (Some 30) sample_dead;
       30 := mkDeadBlock (Some 20) None sample_dead ]}
    (Some 10).

(** * Proofs *)

(** ** Intrusive lists *)

Section DllFacts.
Context {N : Type} (getPrev getNext : N -> option Z)
        (setPrev setNext : option Z -> N -> N).
Hypothesis getPrev_setPrev : forall v n, getPrev (setPrev v n) = v.
Hypothesis getNext_setPrev : forall v n, getNext (setPrev v n) = getNext n.
Hypothesis getPrev_setNext : forall v n, getPrev (setNext v n) = getPrev n.
Hypothesis getNext_setNext : forall v n, getNext (setNext v n) = v.

Lemma alter_at_ne (f : N -> N) o (H : gmap Z N) x :
  o <> Some x -> alter_at f o H !! x = H !! x.
Proof.
  destruct o as [a|]; simpl; [|done].
  intros Hne. apply lookup_alter_ne. congruence.
Qed.

Lemma alter_at_eq (f : N -> N) (H : gmap Z N) x :
  alter_at f (Some x) H !! x = f <$> H !! x.
Proof. apply lookup_alter_eq. Qed.

Lemma nodup_idx (l : list Z) i j x y :
  NoDup l -> l !! i = Some x -> l !! j = Some y -> i <> j -> x <> y.
Proof.
  intros Hnd Hi Hj Hne ->. apply Hne. eapply NoDup_lookup; eauto.
Qed.

Lemma not_elem_lookup (l : list Z) i x y :
  x ∉ l -> l !! i = Some y -> x <> y.
Proof.
  intros Hn Hi ->. apply Hn. eapply list_elem_of_lookup_2; eauto.
Qed.

Lemma dll_nodes (H : gmap Z N) l hd x :
  dll getPrev getNext H l hd -> x ∈ l -> is_Some (H !! x).
Proof.
  intros (_ & _ & Hpw) Hx. apply list_elem_of_lookup_1 in Hx as [i Hi].
  destruct (Hpw i x Hi) as (n & Hn & _). eauto.
Qed.

(** Nodes off the list may be changed freely. *)
Lemma dll_frame (H H' : gmap Z N) l hd :
  (forall x, x ∈ l -> H' !! x = H !! x) ->
  dll getPrev getNext H l hd -> dll getPrev getNext H' l hd.
Proof.
  intros Hsame (Hnd & Hhd & Hpw). split; [done|split; [done|]].
  intros i x Hi. rewrite Hsame; [|eapply list_elem_of_lookup_2; eauto].
  by apply Hpw.
Qed.

Lemma dll_head (H : gmap Z N) l hd :
  dll getPrev getNext H l hd -> (hd = None <-> l = []).
Proof.
  intros (_ & -> & _). destruct l; simpl; split; congruence.
Qed.

Lemma dll_push_ok (H : gmap Z N) l hd p H' hd' :
  dll getPrev getNext H l hd -> p ∉ l -> is_Some (H !! p) ->
  dll_push setPrev setNext H hd p = (H', hd') ->
  dll getPrev getNext H' (p :: l) hd'.
Proof.
  intros (Hnd & Hhd & Hpw) Hp [np Hnp] Heq. unfold dll_push in Heq.
  injection Heq as <- <-.
  split; [by constructor|split; [done|]].
  intros [|i] x Hi; simpl in Hi.
  - injection Hi as <-. rewrite lookup_alter_eq.
    rewrite alter_at_ne.
    2:{ rewrite Hhd, head_lookup. intros Hq. apply Hp. eapply list_elem_of_lookup_2; eauto. }
    rewrite Hnp. simpl. eexists; split; [done|].
    rewrite getNext_setPrev, getNext_setNext, getPrev_setPrev, Hhd, head_lookup. done.
  - pose proof (not_elem_lookup l i p x Hp Hi) as Hpx.
    rewrite lookup_alter_ne; [|done].
    destruct (Hpw i x Hi) as (n & Hn & Hnx & Hpv).
    destruct i as [|j].
    + assert (hd = Some x) as ->. { by rewrite Hhd, head_lookup. }
      rewrite alter_at_eq, Hn. simpl. eexists; split; [done|].
      rewrite getNext_setPrev, getPrev_setPrev. done.
    + rewrite alter_at_ne.
      2:{ rewrite Hhd, head_lookup. intros Hq.
          eapply (nodup_idx l 0 (S j) x x); eauto. }
      eexists; split; [done|]. done.
Qed.
Lemma lookup_delete_cases (l : list Z) k i x :
  delete k l !! i = Some x ->
  ((i < k)%nat /\ l !! i = Some x) \/ ((k <= i)%nat /\ l !! S i = Some x).
Proof.
  intros Hi. destruct (decide (i < k)%nat).
  - left. rewrite list_lookup_delete_lt in Hi; auto.
  - right. rewrite list_lookup_delete_ge in Hi; auto with lia.
Qed.

Lemma prev_of_delete_le (l : list Z) k i :
  (i <= k)%nat -> prev_of (delete k l) i = prev_of l i.
Proof.
  intros Hik. destruct i as [|j]; simpl; [done|].
  apply list_lookup_delete_lt. lia.
Qed.

Lemma prev_of_delete_gt (l : list Z) k i :
  (k < i)%nat -> prev_of (delete k l) i = l !! i.
Proof.
  intros Hik. destruct i as [|j]; simpl; [lia|].
  apply list_lookup_delete_ge. lia.
Qed.

Lemma prev_of_insert_ne (l : list Z) k q i :
  i <> S k -> prev_of (<[k := q]> l) i = prev_of l i.
Proof.
  intros Hik. destruct i as [|j]; simpl; [done|].
  apply list_lookup_insert_ne. congruence.
Qed.

Lemma NoDup_delete_idx (l : list Z) k : NoDup l -> NoDup (delete k l).
Proof.
  rewrite !NoDup_alt. intros Hnd i j x Hi Hj.
  apply lookup_delete_cases in Hi as [[? Hi]|[? Hi]];
  apply lookup_delete_cases in Hj as [[? Hj]|[? Hj]];
  pose proof (Hnd _ _ _ Hi Hj); lia.
Qed.

Lemma NoDup_insert_fresh (l : list Z) k q :
  NoDup l -> q ∉ l -> NoDup (<[k := q]> l).
Proof.
  rewrite !NoDup_alt. intros Hnd Hq i j x Hi Hj.
  apply list_lookup_insert_Some in Hi as [(-> & <- & _)|[? Hi]];
  apply list_lookup_insert_Some in Hj as [(-> & Hj & _)|[? Hj]]; try done.
  - subst. exfalso. eapply not_elem_lookup; eauto.
  - subst. exfalso. eapply not_elem_lookup; eauto.
  - eauto.
Qed.

Lemma dll_unlink_ok (H : gmap Z N) l hd k p H' hd' :
  dll getPrev getNext H l hd -> l !! k = Some p ->
  dll_unlink getPrev getNext setPrev setNext H hd p = (H', hd') ->
  dll getPrev getNext H' (delete k l) hd'.
Proof.
  intros (Hnd & Hhd & Hpw) Hk Heq.
  destruct (Hpw k p Hk) as (n & Hn & Hnext & Hprev).
  unfold dll_unlink in Heq. rewrite Hn in Heq. injection Heq as <- <-.
  rewrite Hnext, Hprev.
  split; [by apply NoDup_delete_idx|split].
  { rewrite Hhd, !head_lookup. destruct k as [|k].
    - rewrite decide_True by done.
      by rewrite list_lookup_delete_ge by lia.
    - rewrite decide_False.
      2:{ intros H0. pose proof (NoDup_lookup l 0 (S k) p Hnd H0 Hk). lia. }
      by rewrite list_lookup_delete_lt by lia. }
  intros i x Hi.
  apply lookup_delete_cases in Hi as [[Hik Hi]|[Hik Hi]].
  - rewrite alter_at_ne.
    2:{ intros Hb. pose proof (NoDup_lookup l _ _ x Hnd Hb Hi). lia. }
    destruct (Hpw i x Hi) as (nx & Hnx & Hxn & Hxp).
    destruct (decide (S i = k)) as [<-|Hne].
    + simpl. rewrite Hi, alter_at_eq, Hnx. simpl. eexists; split; [done|].
      rewrite getNext_setNext, getPrev_setNext, Hxp, prev_of_delete_le by lia.
      split; [|done]. by rewrite list_lookup_delete_ge by lia.
    + rewrite alter_at_ne.
      2:{ destruct k as [|j]; simpl; [done|]. intros Ha.
          pose proof (NoDup_lookup l _ _ x Hnd Ha Hi). lia. }
      eexists; split; [done|].
      rewrite Hxn, Hxp, prev_of_delete_le by lia.
      split; [|done]. by rewrite list_lookup_delete_lt by lia.
  - destruct (Hpw (S i) x Hi) as (nx & Hnx & Hxn & Hxp).
    assert (prev_of l k <> Some x) as Ha.
    { destruct k as [|j]; simpl; [done|]. intros Ha.
      pose proof (NoDup_lookup l _ _ x Hnd Ha Hi). lia. }
    destruct (decide (i = k)) as [->|Hne].
    + rewrite Hi, alter_at_eq, alter_at_ne, Hnx by done. simpl.
      eexists; split; [done|].
      rewrite getNext_setPrev, getPrev_setPrev, Hxn, prev_of_delete_le by lia.
      split; [|done]. by rewrite list_lookup_delete_ge by lia.
    + rewrite alter_at_ne, alter_at_ne by
        (done || (intros Hb; pose proof (NoDup_lookup l _ _ x Hnd Hb Hi); lia)).
      eexists; split; [done|].
      rewrite Hxn, Hxp, prev_of_delete_gt by lia.
      split; [|done]. by rewrite list_lookup_delete_ge by lia.
Qed.

Lemma dll_replace_ok (H : gmap Z N) l hd k p q H' hd' :
  dll getPrev getNext H l hd -> l !! k = Some p -> q ∉ l -> is_Some (H !! q) ->
  dll_replace getPrev getNext setPrev setNext H hd p q = (H', hd') ->
  dll getPrev getNext H' (<[k := q]> l) hd'.
Proof.
  intros (Hnd & Hhd & Hpw) Hk Hq [nq Hnq] Heq.
  assert (Hlen : (k < length l)%nat) by (eapply lookup_lt_Some; eauto).
  destruct (Hpw k p Hk) as (n & Hn & Hnext & Hprev).
  unfold dll_replace in Heq. rewrite Hn in Heq. injection Heq as <- <-.
  rewrite Hnext, Hprev.
  assert (Hqa : forall j, l !! j <> Some q).
  { intros j Hj. apply Hq. eapply list_elem_of_lookup_2; eauto. }
  split; [by apply NoDup_insert_fresh|split].
  { rewrite Hhd, !head_lookup. destruct k as [|k].
    - rewrite decide_True by done.
      by rewrite list_lookup_insert_eq.
    - rewrite decide_False.
      2:{ intros H0. pose proof (NoDup_lookup l 0 (S k) p Hnd H0 Hk). lia. }
      by rewrite list_lookup_insert_ne by lia. }
  intros i x Hi.
  apply list_lookup_insert_Some in Hi as [(<- & <- & _)|[Hik Hi]].
  - rewrite lookup_alter_eq, alter_at_ne, alter_at_ne, Hnq.
    2:{ destruct k as [|j]; simpl; [done|]. apply Hqa. }
    2:{ apply Hqa. }
    simpl. eexists; split; [done|].
    rewrite getNext_setPrev, getNext_setNext, getPrev_setPrev.
    rewrite prev_of_insert_ne by lia.
    split; [|done]. by rewrite list_lookup_insert_ne by lia.
  - assert (x <> q) by (intros ->; by apply (Hqa i)).
    rewrite lookup_alter_ne by congruence.
    destruct (Hpw i x Hi) as (nx & Hnx & Hxn & Hxp).
    destruct (decide (i = S k)) as [->|Hne1].
    + rewrite Hi, alter_at_eq, alter_at_ne, Hnx.
      2:{ destruct k as [|j]; simpl; [done|]. intros Ha.
          pose proof (NoDup_lookup l _ _ x Hnd Ha Hi). lia. }
      simpl. eexists; split; [done|].
      rewrite getNext_setPrev, getPrev_setPrev, Hxn. simpl.
      rewrite list_lookup_insert_eq by done.
      split; [|done]. by rewrite list_lookup_insert_ne by lia.
    + rewrite prev_of_insert_ne by done.
      destruct (decide (S i = k)) as [<-|Hne2].
      * simpl. rewrite Hi, alter_at_ne, alter_at_eq, Hnx.
        2:{ intros Hb. pose proof (NoDup_lookup l _ _ x Hnd Hb Hi). lia. }
        simpl. eexists; split; [done|].
        rewrite getNext_setNext, getPrev_setNext.
        by rewrite list_lookup_insert_eq by done.
      * rewrite alter_at_ne, alter_at_ne.
        2:{ destruct k as [|j]; simpl; [done|]. intros Ha.
            pose proof (NoDup_lookup l _ _ x Hnd Ha Hi). lia. }
        2:{ intros Hb. pose proof (NoDup_lookup l _ _ x Hnd Hb Hi). lia. }
        eexists; split; [done|].
        rewrite Hxn. split; [|done]. by rewrite list_lookup_insert_ne by lia.
Qed.
End DllFacts.

(** ** The pointer chain of a block *)

Section PointerChain.

Lemma chain_step_ok (b : Block) (ptrs : gmap Z Pointer) l op l' :
  chain ptrs b l -> chain_op_pre ptrs l op l' ->
  chain (snd (chain_step (b, ptrs) op)) (fst (chain_step (b, ptrs) op)) l'.
Proof.
  intros Hc Hpre. unfold chain in *. destruct op as [p|p|o q]; simpl in Hpre.
  - destruct Hpre as (Hp & Hs & ->). simpl. unfold addPointer.
    destruct (dll_push set_PPrev set_PNext ptrs (Pointers b) p) as [ptrs' hd] eqn:E.
    simpl. eapply (dll_push_ok PPrev PNext set_PPrev set_PNext); try (by intros); eauto.
  - destruct Hpre as (k & Hk & ->). simpl. unfold removePointer.
    destruct (dll_unlink PPrev PNext set_PPrev set_PNext ptrs (Pointers b) p)
      as [ptrs' hd] eqn:E.
    simpl. eapply (dll_unlink_ok PPrev PNext set_PPrev set_PNext); try (by intros); eauto.
  - destruct Hpre as (k & Hk & Hq & Hs & ->). simpl. unfold replacePointer.
    destruct (dll_replace PPrev PNext set_PPrev set_PNext ptrs (Pointers b) o q)
      as [ptrs' hd] eqn:E.
    simpl. eapply (dll_replace_ok PPrev PNext set_PPrev set_PNext); try (by intros); eauto.
Qed.

Lemma hasPointers_chain (b : Block) (ptrs : gmap Z Pointer) l :
  chain ptrs b l -> (hasPointers b = true <-> (0 < length l)%nat).
Proof.
  intros (_ & Hhd & _). unfold hasPointers. rewrite Hhd.
  destruct l as [|y l]; simpl; split; intros; try done; lia.
Qed.

Lemma run_chain_ok ops (b : Block) (ptrs : gmap Z Pointer) l :
  chain ptrs b l -> chain_ops_pre (b, ptrs) l ops ->
  exists l', chain (snd (run_chain (b, ptrs) ops)) (fst (run_chain (b, ptrs) ops)) l'.
Proof.
  revert b ptrs l. induction ops as [|op ops IH]; intros b ptrs l Hc Hpre.
  - by exists l.
  - destruct Hpre as (l1 & Hop & Hrest). simpl in Hop.
    pose proof (chain_step_ok b ptrs l op l1 Hc Hop) as Hc1.
    change (run_chain (b, ptrs) (op :: ops)) with (run_chain (chain_step (b, ptrs) op) ops).
    destruct (chain_step (b, ptrs) op) as [b1 ptrs1] eqn:E.
    eapply IH; eauto.
Qed.

Lemma chain_ops_pre_take ops n (bp : Block * gmap Z Pointer) l :
  chain_ops_pre bp l ops -> chain_ops_pre bp l (take n ops).
Proof.
  revert n bp l. induction ops as [|op ops IH]; intros n bp l Hpre.
  - by rewrite take_nil.
  - destruct n as [|n]; [done|]. simpl.
    destruct Hpre as (l1 & Hop & Hrest). exists l1. split; [done|]. by apply IH.
Qed.

Lemma replacePointer_ok (b : Block) (ptrs : gmap Z Pointer) l k old new b' ptrs' :
  chain ptrs b l -> l !! k = Some old -> new ∉ l -> is_Some (ptrs !! new) ->
  replacePointer b ptrs old new = (b', ptrs') ->
  chain ptrs' b' (<[k := new]> l).
Proof.
  intros Hc Hk Hn Hs E. unfold replacePointer, chain in *.
  destruct (dll_replace PPrev PNext set_PPrev set_PNext ptrs (Pointers b) old new)
    as [p1 hd] eqn:E1.
  injection E as <- <-. simpl. eapply (dll_replace_ok PPrev PNext set_PPrev set_PNext); try (by intros); eauto.
Qed.
End PointerChain.

(** ** Relocated blocks *)

Section NodeFields.
Context {N A : Type} (proj : N -> A).

Lemma alter_at_proj (f : N -> N) o (H : gmap Z N) a n :
  (forall n, proj (f n) = proj n) -> H !! a = Some n ->
  exists n', alter_at f o H !! a = Some n' /\ proj n' = proj n.
Proof.
  intros Hf Ha. destruct o as [x|]; simpl; [|eauto].
  destruct (decide (x = a)) as [->|Hne].
  - rewrite lookup_alter_eq, Ha. simpl. eauto.
  - rewrite lookup_alter_ne by done. eauto.
Qed.

Context (getPrev getNext : N -> option Z) (setPrev setNext : option Z -> N -> N).
Hypothesis proj_setPrev : forall v n, proj (setPrev v n) = proj n.
Hypothesis proj_setNext : forall v n, proj (setNext v n) = proj n.

(** Linking and unlinking touch only the links of the nodes. *)
Lemma dll_push_proj (H : gmap Z N) hd p a n :
  H !! a = Some n ->
  exists n', (dll_push setPrev setNext H hd p).1 !! a = Some n' /\ proj n' = proj n.
Proof.
  intros Ha. simpl.
  destruct (alter_at_proj (setPrev (Some p)) hd H a n) as (n1 & H1 & P1); auto.
  destruct (alter_at_proj (fun m => setPrev None (setNext hd m)) (Some p)
              (alter_at (setPrev (Some p)) hd H) a n1)
    as (n2 & H2 & P2); [intros; by rewrite proj_setPrev|done|].
  exists n2. split; [done|congruence].
Qed.

Lemma dll_unlink_proj (H : gmap Z N) hd p a n :
  H !! a = Some n ->
  exists n', (dll_unlink getPrev getNext setPrev setNext H hd p).1 !! a = Some n' /\
             proj n' = proj n.
Proof.
  intros Ha. unfold dll_unlink. destruct (H !! p) as [np|]; simpl; [|eauto].
  destruct (alter_at_proj (setNext (getNext np)) (getPrev np) H a n) as (n1 & H1 & P1); auto.
  destruct (alter_at_proj (setPrev (getPrev np)) (getNext np)
              (alter_at (setNext (getNext np)) (getPrev np) H) a n1) as (n2 & H2 & P2); auto.
  exists n2. split; [done|congruence].
Qed.
End NodeFields.

Section Relocation.
Context (sizeof_Block offsetof_B : Z) (descs : Z -> Descriptor).

Lemma drop_not_elem (l : list Z) j p :
  NoDup l -> l !! j = Some p -> p ∉ drop (S j) l.
Proof.
  intros Hnd Hj Hin. apply list_elem_of_lookup_1 in Hin as [i Hi].
  rewrite lookup_drop in Hi. pose proof (NoDup_lookup l _ _ p Hnd Hj Hi). lia.
Qed.

(** Walking the chain sets [Pointee] on every node from position [j] on
    and touches nothing else. *)
Lemma retarget_chain_spec (l : list Z) (nb : Z) fuel :
  forall j (Hc : gmap Z Pointer),
  NoDup l ->
  (forall i x, l !! i = Some x -> exists n, Hc !! x = Some n /\ PNext n = l !! S i) ->
  (length l <= j + fuel)%nat ->
  (forall x, x ∈ drop j l -> exists n, Hc !! x = Some n /\
      retarget_chain fuel (l !! j) nb Hc !! x = Some (set_Pointee (Some nb) n)) /\
  (forall x, x ∉ drop j l -> retarget_chain fuel (l !! j) nb Hc !! x = Hc !! x).
Proof.
  induction fuel as [|fuel IH]; intros j Hc Hnd Hnext Hlen.
  - rewrite drop_ge by lia. split; [intros x Hx; by apply elem_of_nil in Hx|].
    intros x _. simpl. done.
  - destruct (l !! j) as [p|] eqn:Hj.
    2:{ apply lookup_ge_None in Hj. rewrite drop_ge by lia.
        split; [intros x Hx; by apply elem_of_nil in Hx|done]. }
    destruct (Hnext j p Hj) as (n & Hn & Hpn). simpl. rewrite Hn, Hpn.
    set (Hc' := <[p := set_Pointee (Some nb) n]> Hc).
    assert (Hnext' : forall i x, l !! i = Some x ->
              exists n, Hc' !! x = Some n /\ PNext n = l !! S i).
    { intros i x Hi. destruct (Hnext i x Hi) as (nx & Hnx & Hxn).
      destruct (decide (x = p)) as [->|Hne].
      - exists (set_Pointee (Some nb) n). unfold Hc'. rewrite lookup_insert_eq.
        split; [done|]. simpl. rewrite Hn in Hnx. injection Hnx as <-. done.
      - exists nx. unfold Hc'. rewrite lookup_insert_ne by congruence. done. }
    destruct (IH (S j) Hc' Hnd Hnext' ltac:(lia)) as [IH1 IH2].
    rewrite (drop_S l p j Hj).
    pose proof (drop_not_elem l j p Hnd Hj) as Hp.
    split.
    + intros x Hx. apply elem_of_cons in Hx as [->|Hx].
      * exists n. split; [done|]. rewrite IH2 by done. unfold Hc'.
        by rewrite lookup_insert_eq.
      * destruct (IH1 x Hx) as (nx & Hnx & Hr).
        assert (x <> p) by (intros ->; by apply Hp).
        unfold Hc' in Hnx. rewrite lookup_insert_ne in Hnx by congruence. eauto.
    + intros x Hx. rewrite IH2.
      2:{ intros Hin. apply Hx. by right. }
      unfold Hc'. rewrite lookup_insert_ne; [done|].
      intros ->. apply Hx. by left.
Qed.

Lemma chain_length_size (ptrs : gmap Z Pointer) (b : Block) l :
  chain ptrs b l -> (length l <= size ptrs)%nat.
Proof.
  intros Hc. pose proof Hc as (Hnd & _ & _).
  rewrite <- (size_list_to_set (C := gset Z) l Hnd), <- (size_dom ptrs).
  apply subseteq_size. intros x Hx. apply elem_of_list_to_set in Hx.
  apply elem_of_dom. eapply dll_nodes; eauto.
Qed.

Lemma memcpy_in (m : Mem) dst src n a :
  dst <= a < dst + n -> memcpy m dst src n a = m (src + (a - dst)).
Proof.
  intros Ha. unfold memcpy.
  replace ((dst <=? a) && (a <? dst + n)) with true; [done|].
  symmetry. apply andb_true_intro. split; [apply Z.leb_le|apply Z.ltb_lt]; lia.
Qed.
End Relocation.

Section DeadList.
Context (sizeof_Block offsetof_B : Z) (descs : Z -> Descriptor).

Lemma DeadBlock_new_dead (W : World) daddr this blk :
  WDead W !! daddr = None ->
  exists n, WDead (DeadBlock_new sizeof_Block offsetof_B descs W daddr this blk) !! daddr
            = Some n /\ DB n = set_IsDead true blk.
Proof.
  intros Hfree. unfold DeadBlock_new.
  destruct (dll_push_proj DB set_DPrev set_DNext ltac:(done) ltac:(done)
              (<[daddr := mkDeadBlock None None (set_IsDead true blk)]> (WDead W))
              (WRoot W) daddr daddr _ (lookup_insert_eq _ _ _)) as (n & Hn & Pn).
  destruct (dll_push set_DPrev set_DNext _ (WRoot W) daddr) as [dead root].
  simpl in *. eauto.
Qed.

Lemma DeadBlock_new_others (W : World) daddr this blk a n :
  a <> daddr -> WDead W !! a = Some n ->
  exists n', WDead (DeadBlock_new sizeof_Block offsetof_B descs W daddr this blk) !! a
             = Some n' /\ DB n' = DB n.
Proof.
  intros Hne Ha. unfold DeadBlock_new.
  assert (Ha' : <[daddr := mkDeadBlock None None (set_IsDead true blk)]> (WDead W) !! a
                = Some n) by (rewrite lookup_insert_ne; congruence).
  destruct (dll_push_proj DB set_DPrev set_DNext ltac:(done) ltac:(done)
              _ (WRoot W) daddr a n Ha') as (n' & Hn & Pn).
  destruct (dll_push set_DPrev set_DNext _ (WRoot W) daddr) as [dead root].
  simpl in *. eauto.
Qed.

Lemma DeadBlock_free_others (W : World) d a n :
  a <> d -> WDead W !! a = Some n ->
  exists n', WDead (DeadBlock_free W d) !! a = Some n' /\ DB n' = DB n.
Proof.
  intros Hne Ha. unfold DeadBlock_free.
  destruct (dll_unlink_proj DB DPrev DNext set_DPrev set_DNext ltac:(done) ltac:(done)
              (WDead W) (WRoot W) d a n Ha) as (n' & Hn & Pn).
  destruct (dll_unlink DPrev DNext set_DPrev set_DNext (WDead W) (WRoot W) d)
    as [dead root].
  simpl in *. rewrite lookup_delete_ne by congruence. eauto.
Qed.

End DeadList.

(** C1: through any sequence of attach, detach and retarget calls that keeps
    their contract, [hasPointers] is true exactly when the chain of attached
    reference nodes is non-empty, at every intermediate state (every prefix
    [take n ops] of the sequence, [n = 0] being the state before). *)
Theorem hasPointers_iff_chain_nonempty (ops : list ChainOp) (b : Block)
    (ptrs : gmap Z Pointer) (l : list Z) :
  chain ptrs b l -> chain_ops_pre (b, ptrs) l ops ->
  forall n, exists l',
    chain (snd (run_chain (b, ptrs) (take n ops))) (fst (run_chain (b, ptrs) (take n ops))) l' /\
    (hasPointers (fst (run_chain (b, ptrs) (take n ops))) = true <-> (0 < length l')%nat).
Proof.
  intros Hc Hpre n.
  destruct (run_chain_ok (take n ops) b ptrs l Hc (chain_ops_pre_take ops n _ l Hpre))
    as [l' Hc'].
  exists l'. split; [done|]. eapply hasPointers_chain; eauto.
Qed.

(** C7: retargeting [old] (at position [k] of the chain) to a node [new]
    not in the chain yields a chain of the same length in which [new] sits
    at position [k], [old] no longer occurs, and every other position keeps
    its node. *)
Theorem replacePointer_substitutes (b : Block) (ptrs : gmap Z Pointer) (l : list Z)
    (k : nat) (old new : Z) b' ptrs' :
  chain ptrs b l -> l !! k = Some old -> new ∉ l -> is_Some (ptrs !! new) ->
  replacePointer b ptrs old new = (b', ptrs') ->
  exists l', chain ptrs' b' l' /\ length l' = length l /\ l' !! k = Some new /\
    (old ∉ l') /\ (forall j, j <> k -> l' !! j = l !! j).
Proof.
  intros Hc Hk Hn Hs E. exists (<[k := new]> l).
  assert (Hlen : (k < length l)%nat) by (eapply lookup_lt_Some; eauto).
  destruct Hc as (Hnd & Hhd & Hpw) eqn:Hc0.
  split; [eapply replacePointer_ok; eauto|].
  split; [apply length_insert|].
  split; [by apply list_lookup_insert_eq|].
  split.
  - intros Hold. apply list_elem_of_lookup_1 in Hold as [j Hj].
    apply list_lookup_insert_Some in Hj as [(-> & Heq & _)|[Hne Hj]].
    + subst. apply Hn. eapply list_elem_of_lookup_2; eauto.
    + pose proof (NoDup_lookup l _ _ old Hnd Hk Hj). congruence.
  - intros j Hj. apply list_lookup_insert_ne. congruence.
Qed.

(** ** Block methods *)

Section BlockMethods.
Context (sizeof_Block : Z) (descs : Z -> Descriptor).

Lemma chain_step_header (b : Block) (ptrs : gmap Z Pointer) c :
  exists hd, fst (chain_step (b, ptrs) c) = set_Pointers hd b.
Proof.
  destruct c as [p|p|o q]; simpl.
  - unfold addPointer.
    destruct (dll_push set_PPrev set_PNext ptrs (Pointers b) p). by eexists.
  - unfold removePointer.
    destruct (dll_unlink PPrev PNext set_PPrev set_PNext ptrs (Pointers b) p).
    by eexists.
  - unfold replacePointer.
    destruct (dll_replace PPrev PNext set_PPrev set_PNext ptrs (Pointers b) o q).
    by eexists.
Qed.

Lemma block_step_flags s op :
  let b' := BBlk (block_step sizeof_Block descs s op) in
  IsStatic b' = IsStatic (BBlk s) /\ IsExtern b' = IsExtern (BBlk s) /\
  IsDead b' = IsDead (BBlk s) /\ DeclID b' = DeclID (BBlk s).
Proof.
  destruct op as [| |c]; [done|done|]. unfold block_step.
  destruct (chain_step_header (BBlk s) (BPtrs s) c) as [hd E].
  destruct (chain_step (BBlk s, BPtrs s) c) as [b' ptrs'].
  simpl in E. by subst b'.
Qed.

Lemma block_step_init s op :
  isInitialized (BBlk (block_step sizeof_Block descs s op)) =
  match op with
  | OpCtor => true
  | OpDtor => false
  | OpChain _ => isInitialized (BBlk s)
  end.
Proof.
  destruct op as [| |c]; [done|done|]. unfold block_step.
  destruct (chain_step_header (BBlk s) (BPtrs s) c) as [hd E].
  destruct (chain_step (BBlk s, BPtrs s) c) as [b' ptrs'].
  simpl in E. by subst b'.
Qed.
Lemma run_block_flags s ops :
  let b' := BBlk (run_block sizeof_Block descs s ops) in
  IsStatic b' = IsStatic (BBlk s) /\ IsExtern b' = IsExtern (BBlk s) /\
  IsDead b' = IsDead (BBlk s).
Proof.
  revert s. induction ops as [|op ops IH]; intros s; [done|].
  change (run_block sizeof_Block descs s (op :: ops))
    with (run_block sizeof_Block descs (block_step sizeof_Block descs s op) ops).
  destruct (IH (block_step sizeof_Block descs s op)) as (H1 & H2 & H3).
  destruct (block_step_flags s op) as (F1 & F2 & F3 & _).
  simpl in *. repeat split; congruence.
Qed.
End BlockMethods.

(** C2: [invokeCtor] zero-fills the [getAllocSize] bytes from [rawData()],
    then, if there is a construct callback, runs it on that zero-filled
    memory with (block, [data()], [IsConst], [IsMutable], active = true,
    descriptor), the block it sees not yet marked initialized; finally the
    initialized flag is set, the rest of the header unchanged. *)
Theorem invokeCtor_spec (sizeof_Block : Z) (descs : Z -> Descriptor)
    (this : Z) (b : Block) (m : Mem) :
  let d := getDescriptor descs b in
  let raw := rawData sizeof_Block this in
  exists m0,
    (forall a, m0 a = if (raw <=? a) && (a <? raw + getAllocSize d) then Byte.x00 else m a) /\
    invokeCtor sizeof_Block descs this b m =
      (set_IsInitialized true b,
       match CtorFn d with
       | Some f => f this b (data sizeof_Block descs this b)
                     (IsConst d) (IsMutable d) true (Desc b) m0
       | None => m0
       end).
Proof.
  simpl. eexists. split; [|reflexivity]. intros a. reflexivity.
Qed.

(** C3: [rawData()] is the block address plus [sizeof(Block)], [data()] is
    [rawData()] plus the metadata size; with 8 bytes of metadata [data()]
    is [rawData() + 8]. *)
Theorem data_rawData_layout (sizeof_Block : Z) (descs : Z -> Descriptor)
    (this : Z) (b : Block) :
  rawData sizeof_Block this = this + sizeof_Block /\
  data sizeof_Block descs this b =
    rawData sizeof_Block this + getMetadataSize (getDescriptor descs b) /\
  (getMetadataSize (getDescriptor descs b) = 8 ->
   data sizeof_Block descs this b = rawData sizeof_Block this + 8).
Proof.
  split; [reflexivity|]. split; [reflexivity|].
  intros H8. unfold data. rewrite H8. reflexivity.
Qed.

(** C4: after [invokeCtor] the block is initialized, after [invokeCtor]
    then [invokeDtor] it is not, and after any sequence of operations the
    flag is that of the last construct or destroy of the sequence (its
    value before when there is none). *)
Theorem isInitialized_ctor_dtor (sizeof_Block : Z) (descs : Z -> Descriptor) :
  (forall s, isInitialized (BBlk (run_block sizeof_Block descs s [OpCtor])) = true) /\
  (forall s, isInitialized (BBlk (run_block sizeof_Block descs s [OpCtor; OpDtor])) = false) /\
  (forall s ops, isInitialized (BBlk (run_block sizeof_Block descs s ops)) =
                 last_ctor_dtor (isInitialized (BBlk s)) ops).
Proof.
  split; [intros s; reflexivity|]. split; [intros s; reflexivity|].
  intros s ops. revert s. induction ops as [|op ops IH]; intros s; [done|].
  unfold run_block. simpl. fold (run_block sizeof_Block descs (block_step sizeof_Block descs s op) ops).
  rewrite IH, block_step_init. by destruct op.
Qed.

(** C5, as stated (no construct callback makes [invokeCtor] a pure flag
    flip) fails: [invokeCtor] zero-fills the allocation whether or not
    there is a callback.  A block of 16 bytes filled with [0xAA] reads
    [0x00] at [rawData()] after [invokeCtor]. *)
Lemma invokeCtor_no_callback_clears_data :
  ~ (forall (sizeof_Block : Z) (descs : Z -> Descriptor) (this : Z) (b : Block) (m : Mem),
       CtorFn (getDescriptor descs b) = None ->
       snd (invokeCtor sizeof_Block descs this b m) = m).
Proof.
  intros H.
  specialize (H 8 (fun _ => mkDescriptor 16 0 16 false false false None None)
                0 (Block_new 0 false false) (fun _ => Byte.xaa) eq_refl).
  apply (f_equal (fun m => m 8)) in H. vm_compute in H. discriminate.
Qed.

(** C5 (amended): without a destroy callback [invokeDtor] only clears the
    initialized flag; without a construct callback [invokeCtor] sets the
    flag and zero-fills the [getAllocSize] bytes from [rawData()], every
    other byte and the rest of the header being unchanged. *)
Theorem invoke_without_callbacks (sizeof_Block : Z) (descs : Z -> Descriptor)
    (this : Z) (b : Block) (m : Mem) :
  let d := getDescriptor descs b in
  let raw := rawData sizeof_Block this in
  (DtorFn d = None ->
   invokeDtor sizeof_Block descs this b m = (set_IsInitialized false b, m)) /\
  (CtorFn d = None ->
   fst (invokeCtor sizeof_Block descs this b m) = set_IsInitialized true b /\
   forall a, snd (invokeCtor sizeof_Block descs this b m) a =
             if (raw <=? a) && (a <? raw + getAllocSize d) then Byte.x00 else m a).
Proof.
  simpl. split.
  - intros Hd. unfold invokeDtor. by rewrite Hd.
  - intros Hc. unfold invokeCtor. rewrite Hc. split; [done|]. intros a. reflexivity.
Qed.

(** C10, as stated ("only the protected constructor leaves the
    declaration id absent") fails: the public constructor taking an
    optional id stores it as given, so it yields an absent id when given
    one. *)
Lemma Block_new_decl_can_be_absent :
  ~ (forall (declID : option Z) (desc : Z) (isStatic isExtern : bool),
       getDeclID (Block_new_decl declID desc isStatic isExtern) <> None).
Proof.
  intros H. apply (H None 0 false false). reflexivity.
Qed.

(** C10 (amended): the public constructor without a declaration id stores
    [(unsigned)-1], i.e. [Some 4294967295]; the protected dead-block
    constructor leaves the id absent; the public constructor taking an
    optional id stores exactly the one given. *)
Theorem getDeclID_constructors :
  (forall (desc : Z) (isStatic isExtern : bool),
     getDeclID (Block_new desc isStatic isExtern) = Some 4294967295) /\
  (forall (desc : Z) (isExtern isStatic isDead : bool),
     getDeclID (Block_new_dead desc isExtern isStatic isDead) = None) /\
  (forall (declID : option Z) (desc : Z) (isStatic isExtern : bool),
     getDeclID (Block_new_decl declID desc isStatic isExtern) = declID).
Proof.
  split; [|split]; intros; reflexivity.
Qed.

(** C6: relocating the block [blk] at [this] with attached chain [l] into a
    fresh [DeadBlock] at [daddr]: the new node holds the source header
    (marked dead, same descriptor hence same size), the allocation bytes
    from [rawData()] (metadata and data) are copied, the node becomes the
    head of the dead list, the chain is the same list [l] of nodes (same
    length and order) with only their [Pointee] changed to the embedded
    block, and every such reference reads through [data()] the bytes the
    source block's data held. *)
Theorem DeadBlock_new_relocates (sizeof_Block offsetof_B : Z) (descs : Z -> Descriptor)
    (W : World) (daddr this : Z) (blk : Block) (l dl : list Z) :
  chain (WPtrs W) blk l ->
  dll DPrev DNext (WDead W) dl (WRoot W) ->
  WDead W !! daddr = None ->
  0 <= getMetadataSize (getDescriptor descs blk) ->
  getMetadataSize (getDescriptor descs blk) + getSize (getDescriptor descs blk)
    <= getAllocSize (getDescriptor descs blk) ->
  let W' := DeadBlock_new sizeof_Block offsetof_B descs W daddr this blk in
  let nb := embedded offsetof_B daddr in
  let B := set_IsDead true blk in
  (exists n, WDead W' !! daddr = Some n /\ DB n = B) /\
  getBlockSize descs B = getBlockSize descs blk /\
  (forall i, 0 <= i < getBlockSize descs blk ->
     WMem W' (rawData sizeof_Block nb + i) = WMem W (rawData sizeof_Block this + i)) /\
  WRoot W' = Some daddr /\
  dll DPrev DNext (WDead W') (daddr :: dl) (WRoot W') /\
  chain (WPtrs W') B l /\
  (forall p, p ∈ l -> exists n,
     WPtrs W !! p = Some n /\ WPtrs W' !! p = Some (set_Pointee (Some nb) n)) /\
  (forall p i, p ∈ l -> 0 <= i < getSize (getDescriptor descs blk) ->
     deref_byte sizeof_Block descs W' B p i =
       Some (WMem W (data sizeof_Block descs this blk + i))).
Proof.
  intros Hc Hdl Hfree Hmd Hsz W' nb B.
  pose proof (DeadBlock_new_dead sizeof_Block offsetof_B descs W daddr this blk Hfree)
    as Hnode.
  pose proof Hc as (Hnd & Hhd & Hpw).
  assert (Hnodes : forall x, x ∈ dl -> x <> daddr).
  { intros x Hx ->. destruct (dll_nodes _ _ _ _ _ daddr Hdl Hx) as [? Hs]. congruence. }
  (* the pointer walk *)
  assert (Hlen : (length l <= 0 + size (WPtrs W))%nat)
    by (pose proof (chain_length_size _ _ _ Hc); lia).
  assert (Hnext : forall i x, l !! i = Some x ->
            exists n, WPtrs W !! x = Some n /\ PNext n = l !! S i).
  { intros i x Hi. destruct (Hpw i x Hi) as (n & ? & ? & _). eauto. }
  destruct (retarget_chain_spec l nb (size (WPtrs W)) 0 (WPtrs W) Hnd Hnext Hlen)
    as [R1 _].
  simpl drop in R1. rewrite <- head_lookup, <- Hhd in R1.
  assert (Hptrs : WPtrs W' = retarget_chain (size (WPtrs W)) (Pointers blk) nb (WPtrs W)).
  { subst W'. unfold DeadBlock_new.
    destruct (dll_push set_DPrev set_DNext _ (WRoot W) daddr). done. }
  assert (Hmem : WMem W' = memcpy (WMem W) (rawData sizeof_Block nb)
                   (rawData sizeof_Block this) (getBlockSize descs blk)).
  { subst W'. unfold DeadBlock_new.
    destruct (dll_push set_DPrev set_DNext _ (WRoot W) daddr). done. }
  assert (Hlist : (WDead W', WRoot W') =
            dll_push set_DPrev set_DNext
              (<[daddr := mkDeadBlock None None B]> (WDead W)) (WRoot W) daddr).
  { subst W'. unfold DeadBlock_new.
    destruct (dll_push set_DPrev set_DNext _ (WRoot W) daddr). done. }
  rewrite <- Hptrs in R1.
  split; [exact Hnode|]. split; [reflexivity|]. split.
  { intros i Hi. rewrite Hmem, memcpy_in by lia. f_equal. lia. }
  split.
  { unfold dll_push in Hlist. congruence. }
  split.
  { assert (Hdl1 : dll DPrev DNext (<[daddr := mkDeadBlock None None B]> (WDead W))
                      dl (WRoot W)).
    { eapply dll_frame; [|exact Hdl]. intros x Hx.
      apply lookup_insert_ne. intros Heq. subst x. by apply (Hnodes daddr). }
    assert (Hnot : daddr ∉ dl) by (intros Hin; by apply (Hnodes daddr)).
    assert (Hs : is_Some (<[daddr := mkDeadBlock None None B]> (WDead W) !! daddr))
      by (rewrite lookup_insert_eq; eauto).
    eapply (dll_push_ok DPrev DNext set_DPrev set_DNext);
      [(by intros) .. | exact Hdl1 | exact Hnot | exact Hs | exact (eq_sym Hlist)]. }
  split.
  { split; [done|split; [exact Hhd|]]. intros i x Hi.
    destruct (Hpw i x Hi) as (n & Hn & Hxn & Hxp).
    destruct (R1 x ltac:(eapply list_elem_of_lookup_2; eauto)) as (n0 & Hn0 & Hr).
    rewrite Hn in Hn0. injection Hn0 as <-.
    eexists; split; [exact Hr|]. simpl. auto. }
  split; [exact R1|].
  intros p i Hp Hi. destruct (R1 p Hp) as (n & _ & Hr).
  unfold deref_byte. rewrite Hr. simpl. f_equal.
  try rewrite Hmem. subst nb B.
  unfold data, rawData, getBlockSize, getDescriptor, embedded in *. simpl.
  rewrite memcpy_in by lia. f_equal. lia.
Qed.

(** C8: releasing the dead block [d], wherever it sits in the list
    ([l1] before it, [l2] after it, either possibly empty), leaves the list
    [l1 ++ l2] with consistent [Prev]/[Next] links and root, reclaims the
    node, and changes nothing else: memory, reference nodes and the other
    nodes' embedded blocks. *)
Theorem DeadBlock_free_unlinks (W : World) (l1 l2 : list Z) (d : Z) :
  dll DPrev DNext (WDead W) (l1 ++ d :: l2) (WRoot W) ->
  let W' := DeadBlock_free W d in
  dll DPrev DNext (WDead W') (l1 ++ l2) (WRoot W') /\
  WDead W' !! d = None /\
  WMem W' = WMem W /\ WPtrs W' = WPtrs W /\
  (forall a n, a <> d -> WDead W !! a = Some n ->
     exists n', WDead W' !! a = Some n' /\ DB n' = DB n).
Proof.
  intros Hdl W'.
  pose proof Hdl as (Hnd & _ & _).
  assert (Hd : d ∉ l1 ++ l2).
  { intros Hin. apply NoDup_app in Hnd as (_ & Hdis & Hnd2).
    apply elem_of_app in Hin as [Hin|Hin].
    - apply (Hdis d Hin). by left.
    - apply NoDup_cons in Hnd2 as [Hn _]. by apply Hn. }
  split; [|split; [|split; [|split]]].
  - subst W'. unfold DeadBlock_free.
    destruct (dll_unlink DPrev DNext set_DPrev set_DNext (WDead W) (WRoot W) d)
      as [dead root] eqn:Eu.
    assert (Hok : dll DPrev DNext dead (delete (length l1) (l1 ++ d :: l2)) root).
    { eapply (dll_unlink_ok DPrev DNext set_DPrev set_DNext);
        [(by intros) .. | exact Hdl | exact (list_lookup_middle l1 l2 d _ eq_refl) | exact Eu]. }
    rewrite delete_middle in Hok. simpl.
    eapply dll_frame; [|exact Hok]. intros x Hx.
    apply lookup_delete_ne. intros ->. by apply Hd.
  - subst W'. unfold DeadBlock_free.
    destruct (dll_unlink DPrev DNext set_DPrev set_DNext (WDead W) (WRoot W) d).
    simpl. apply lookup_delete_eq.
  - subst W'. unfold DeadBlock_free.
    by destruct (dll_unlink DPrev DNext set_DPrev set_DNext (WDead W) (WRoot W) d).
  - subst W'. unfold DeadBlock_free.
    by destruct (dll_unlink DPrev DNext set_DPrev set_DNext (WDead W) (WRoot W) d).
  - intros a n Hne Ha. by apply DeadBlock_free_others.
Qed.

(** C9: the static and extern flags are those given to the constructor and
    no block operation changes them; the dead flag is false after the public
    constructors, true after the dead-block constructor (whatever its
    [IsDead] argument) and on the block embedded by a relocation (which
    keeps the source's static and extern flags), and no block operation,
    later relocation or release changes it. *)
Theorem storage_flags_fixed (sizeof_Block offsetof_B : Z) (descs : Z -> Descriptor) :
  (forall s ops,
     let b' := BBlk (run_block sizeof_Block descs s ops) in
     IsStatic b' = IsStatic (BBlk s) /\ IsExtern b' = IsExtern (BBlk s) /\
     IsDead b' = IsDead (BBlk s)) /\
  (forall declID desc isStatic isExtern,
     let b := Block_new_decl declID desc isStatic isExtern in
     IsStatic b = isStatic /\ IsExtern b = isExtern /\ IsDead b = false) /\
  (forall desc isStatic isExtern,
     let b := Block_new desc isStatic isExtern in
     IsStatic b = isStatic /\ IsExtern b = isExtern /\ IsDead b = false) /\
  (forall desc isExtern isStatic isDead,
     let b := Block_new_dead desc isExtern isStatic isDead in
     IsStatic b = isStatic /\ IsExtern b = isExtern /\ IsDead b = true) /\
  (forall W daddr this blk,
     WDead W !! daddr = None ->
     exists n, WDead (DeadBlock_new sizeof_Block offsetof_B descs W daddr this blk) !! daddr
                 = Some n /\
       IsDead (DB n) = true /\ IsStatic (DB n) = IsStatic blk /\
       IsExtern (DB n) = IsExtern blk) /\
  (forall W daddr this blk a n,
     a <> daddr -> WDead W !! a = Some n ->
     exists n', WDead (DeadBlock_new sizeof_Block offsetof_B descs W daddr this blk) !! a
                  = Some n' /\ DB n' = DB n) /\
  (forall W d a n,
     a <> d -> WDead W !! a = Some n ->
     exists n', WDead (DeadBlock_free W d) !! a = Some n' /\ DB n' = DB n).
Proof.
  split; [apply run_block_flags|].
  split; [intros; simpl; auto|].
  split; [intros; simpl; auto|].
  split; [intros; simpl; auto|].
  split.
  { intros W daddr this blk Hfree.
    destruct (DeadBlock_new_dead sizeof_Block offsetof_B descs W daddr this blk Hfree)
      as (n & Hn & Hb).
    exists n. rewrite Hb. auto. }
  split; [intros; by apply DeadBlock_new_others|].
  intros; by apply DeadBlock_free_others.
Qed.

(** ** Witnesses on the sample inputs *)

Ltac by_decide := apply (bool_decide_unpack _); vm_compute; exact I.

(** A concrete chain as a [dll]: decide [NoDup], compute the head, and
    check each position. *)
Ltac concrete_dll :=
  split; [by_decide|split; [reflexivity|]];
  let i := fresh "i" in let x := fresh "x" in let Hi := fresh "Hi" in
  intros i x Hi;
  repeat (destruct i as [|i]; simpl in Hi;
          [injection Hi as <-; eexists; split; [reflexivity|split; reflexivity]|]);
  discriminate.

Lemma hasPointers_iff_chain_nonempty_witness :
  chain sample_ptrs sample_block [] /\
  chain_ops_pre (sample_block, sample_ptrs) [] sample_ops /\
  exists l',
    chain (snd (run_chain (sample_block, sample_ptrs) (take 4 sample_ops)))
          (fst (run_chain (sample_block, sample_ptrs) (take 4 sample_ops))) l' /\
    (hasPointers (fst (run_chain (sample_block, sample_ptrs) (take 4 sample_ops))) = true
     <-> (0 < length l')%nat).
Proof.
  assert (Hc : chain sample_ptrs sample_block []).
  { split; [constructor|split; [reflexivity|]]. intros i x Hi. by destruct i. }
  assert (Hpre : chain_ops_pre (sample_block, sample_ptrs) [] sample_ops).
  { exists [1]. split; [split; [by_decide|split; [eexists; reflexivity|reflexivity]]|].
    exists [2; 1]. split; [split; [by_decide|split; [eexists; vm_compute; reflexivity|reflexivity]]|].
    exists [2; 3]. split.
    { exists 1%nat. split; [reflexivity|]. split; [by_decide|].
      split; [eexists; vm_compute; reflexivity|reflexivity]. }
    exists [3]. split; [|exact I].
    exists 0%nat. split; reflexivity. }
  split; [exact Hc|]. split; [exact Hpre|].
  exact (hasPointers_iff_chain_nonempty sample_ops sample_block sample_ptrs [] Hc Hpre 4).
Defined.

Lemma data_rawData_layout_witness :
  getMetadataSize (getDescriptor sample_descs sample_block) = 8 /\
  data 16 sample_descs 100 sample_block = rawData 16 100 + 8.
Proof.
  split; [reflexivity|].
  apply (proj2 (proj2 (data_rawData_layout 16 sample_descs 100 sample_block))).
  reflexivity.
Defined.

Lemma invoke_without_callbacks_witness :
  DtorFn (getDescriptor sample_descs sample_block) = None /\
  CtorFn (getDescriptor sample_descs sample_block) = None /\
  invokeDtor 16 sample_descs 100 sample_block (fun _ => Byte.xaa) =
    (set_IsInitialized false sample_block, fun _ => Byte.xaa) /\
  fst (invokeCtor 16 sample_descs 100 sample_block (fun _ => Byte.xaa)) =
    set_IsInitialized true sample_block.
Proof.
  destruct (invoke_without_callbacks 16 sample_descs 100 sample_block (fun _ => Byte.xaa))
    as [Hd Hc].
  split; [reflexivity|]. split; [reflexivity|].
  split; [apply Hd; reflexivity|].
  apply (proj1 (Hc eq_refl)).
Defined.

Lemma replacePointer_substitutes_witness :
  chain linked_ptrs linked_block [1; 2] /\
  exists l', chain (snd (replacePointer linked_block linked_ptrs 1 3))
                   (fst (replacePointer linked_block linked_ptrs 1 3)) l' /\
    length l' = 2%nat /\ l' !! 0%nat = Some 3 /\ (1 ∉ l') /\
    (forall j, j <> 0%nat -> l' !! j = [1; 2] !! j).
Proof.
  assert (Hc : chain linked_ptrs linked_block [1; 2]) by concrete_dll.
  split; [exact Hc|].
  apply (replacePointer_substitutes linked_block linked_ptrs [1; 2] 0 1 3).
  - exact Hc.
  - reflexivity.
  - by_decide.
  - eexists; reflexivity.
  - vm_compute. reflexivity.
Defined.

Lemma DeadBlock_new_relocates_witness :
  chain (WPtrs sample_world) linked_block [1; 2] /\
  dll DPrev DNext (WDead sample_world) [] (WRoot sample_world) /\
  WDead sample_world !! 50 = None /\
  (exists n, WDead (DeadBlock_new 16 8 sample_descs sample_world 50 100 linked_block) !! 50
               = Some n /\ DB n = set_IsDead true linked_block) /\
  deref_byte 16 sample_descs (DeadBlock_new 16 8 sample_descs sample_world 50 100 linked_block)
    (set_IsDead true linked_block) 1 0 =
    Some (WMem sample_world (data 16 sample_descs 100 linked_block + 0)).
Proof.
  assert (Hc : chain (WPtrs sample_world) linked_block [1; 2]) by concrete_dll.
  assert (Hdl : dll DPrev DNext (WDead sample_world) [] (WRoot sample_world)).
  { split; [constructor|split; [reflexivity|]]. intros i x Hi. by destruct i. }
  assert (Hfree : WDead sample_world !! 50 = None) by reflexivity.
  pose proof (DeadBlock_new_relocates 16 8 sample_descs sample_world 50 100 linked_block
                [1; 2] [] Hc Hdl Hfree ltac:(vm_compute; discriminate)
                ltac:(vm_compute; discriminate)) as R.
  cbv zeta in R.
  destruct R as (R1 & _ & _ & _ & _ & _ & _ & R8).
  split; [exact Hc|]. split; [exact Hdl|]. split; [exact Hfree|]. split; [exact R1|].
  apply R8; [by_decide|unfold getDescriptor, sample_descs; simpl; lia].
Defined.

Lemma DeadBlock_free_unlinks_witness :
  dll DPrev DNext (WDead dead_world) ([10] ++ 20 :: [30]) (WRoot dead_world) /\
  dll DPrev DNext (WDead (DeadBlock_free dead_world 20)) ([10] ++ [30])
      (WRoot (DeadBlock_free dead_world 20)) /\
  WDead (DeadBlock_free dead_world 20) !! 20 = None.
Proof.
  assert (Hdl : dll DPrev DNext (WDead dead_world) ([10] ++ 20 :: [30]) (WRoot dead_world))
    by (simpl; concrete_dll).
  destruct (DeadBlock_free_unlinks dead_world [10] [30] 20 Hdl) as (R1 & R2 & _).
  split; [exact Hdl|]. split; [exact R1|exact R2].
Defined.

Lemma storage_flags_fixed_witness :
  WDead sample_world !! 50 = None /\
  exists n, WDead (DeadBlock_new 16 8 sample_descs sample_world 50 100 linked_block) !! 50
              = Some n /\
    IsDead (DB n) = true /\ IsStatic (DB n) = IsStatic linked_block /\
    IsExtern (DB n) = IsExtern linked_block.
Proof.
  assert (Hfree : WDead sample_world !! 50 = None) by reflexivity.
  split; [exact Hfree|].
  destruct (storage_flags_fixed 16 8 sample_descs) as (_ & _ & _ & _ & R5 & _).
  exact (R5 sample_world 50 100 linked_block Hfree).
Defined.

(** ** Further properties of the block code *)

(** The data view lies inside the allocation: when the descriptor's
    metadata size is non-negative and metadata plus data fit in
    [getAllocSize], the [getSize] bytes from [data()] are among the
    [getAllocSize] bytes from [rawData()]. *)
Theorem data_within_allocation (sizeof_Block : Z) (descs : Z -> Descriptor)
    (this : Z) (b : Block) :
  let d := getDescriptor descs b in
  0 <= getMetadataSize d -> getMetadataSize d + getSize d <= getAllocSize d ->
  rawData sizeof_Block this <= data sizeof_Block descs this b /\
  data sizeof_Block descs this b + getSize d <= rawData sizeof_Block this + getAllocSize d.
Proof.
  intros d Hmd Hsz. unfold data. fold d. lia.
Qed.

Lemma data_within_allocation_witness :
  0 <= getMetadataSize (getDescriptor sample_descs sample_block) /\
  getMetadataSize (getDescriptor sample_descs sample_block) +
    getSize (getDescriptor sample_descs sample_block)
    <= getAllocSize (getDescriptor sample_descs sample_block) /\
  rawData 16 100 <= data 16 sample_descs 100 sample_block /\
  data 16 sample_descs 100 sample_block + getSize (getDescriptor sample_descs sample_block)
    <= rawData 16 100 + getAllocSize (getDescriptor sample_descs sample_block).
Proof.
  assert (H1 : 0 <= getMetadataSize (getDescriptor sample_descs sample_block))
    by (unfold getDescriptor, sample_descs; simpl; lia).
  assert (H2 : getMetadataSize (getDescriptor sample_descs sample_block) +
                 getSize (getDescriptor sample_descs sample_block)
               <= getAllocSize (getDescriptor sample_descs sample_block))
    by (unfold getDescriptor, sample_descs; simpl; lia).
  split; [exact H1|]. split; [exact H2|].
  exact (data_within_allocation 16 sample_descs 100 sample_block H1 H2).
Defined.

(** [invokeCtor] does not depend on what the allocation held before: on
    two memories that agree outside the [getAllocSize] bytes from
    [rawData()] it gives the same block and the same memory, whatever the
    construct callback. *)
Theorem invokeCtor_forgets_old_contents (sizeof_Block : Z) (descs : Z -> Descriptor)
    (this : Z) (b : Block) (m1 m2 : Mem) :
  let raw := rawData sizeof_Block this in
  (forall a, a < raw \/ raw + getAllocSize (getDescriptor descs b) <= a -> m1 a = m2 a) ->
  invokeCtor sizeof_Block descs this b m1 = invokeCtor sizeof_Block descs this b m2.
Proof.
  intros raw Hout. unfold invokeCtor.
  assert (Hz : memset0 m1 (rawData sizeof_Block this) (getAllocSize (getDescriptor descs b)) =
               memset0 m2 (rawData sizeof_Block this) (getAllocSize (getDescriptor descs b))).
  { apply functional_extensionality. intros a. unfold memset0.
    destruct (rawData sizeof_Block this <=? a) eqn:E1;
      destruct (a <? rawData sizeof_Block this + getAllocSize (getDescriptor descs b)) eqn:E2;
      simpl; try reflexivity; apply Hout;
      rewrite ?Z.leb_le, ?Z.leb_gt, ?Z.ltb_lt, ?Z.ltb_ge in *; subst raw; lia. }
  rewrite Hz. reflexivity.
Qed.

Lemma invokeCtor_forgets_old_contents_witness :
  (forall a, a < rawData 16 100 \/
             rawData 16 100 + getAllocSize (getDescriptor sample_descs sample_block) <= a ->
             (fun a => if a =? 120 then Byte.xaa else Byte.x00) a = (fun _ => Byte.x00) a) /\
  invokeCtor 16 sample_descs 100 sample_block (fun a => if a =? 120 then Byte.xaa else Byte.x00) =
  invokeCtor 16 sample_descs 100 sample_block (fun _ => Byte.x00).
Proof.
  assert (H : forall a, a < rawData 16 100 \/
               rawData 16 100 + getAllocSize (getDescriptor sample_descs sample_block) <= a ->
               (fun a => if a =? 120 then Byte.xaa else Byte.x00) a = (fun _ => Byte.x00) a).
  { intros a Ha. unfold rawData, getDescriptor, sample_descs in Ha. simpl in Ha.
    simpl. destruct (a =? 120) eqn:E; [apply Z.eqb_eq in E; lia|reflexivity]. }
  split; [exact H|].
  exact (invokeCtor_forgets_old_contents 16 sample_descs 100 sample_block _ _ H).
Defined.

(** After [invokeCtor] with no construct callback, every one of the
    [getSize] bytes of the data view reads zero, provided the metadata size
    is non-negative and metadata plus data fit in [getAllocSize]. *)
Theorem invokeCtor_zero_data (sizeof_Block : Z) (descs : Z -> Descriptor)
    (this : Z) (b : Block) (m : Mem) (i : Z) :
  let d := getDescriptor descs b in
  CtorFn d = None ->
  0 <= getMetadataSize d -> getMetadataSize d + getSize d <= getAllocSize d ->
  0 <= i < getSize d ->
  snd (invokeCtor sizeof_Block descs this b m) (data sizeof_Block descs this b + i) = Byte.x00.
Proof.
  intros d Hc Hmd Hsz Hi. unfold invokeCtor. fold d. rewrite Hc. simpl.
  unfold memset0, data. fold d.
  replace ((rawData sizeof_Block this <=? rawData sizeof_Block this + getMetadataSize d + i) &&
           (rawData sizeof_Block this + getMetadataSize d + i <?
              rawData sizeof_Block this + getAllocSize d)) with true; [reflexivity|].
  symmetry. apply andb_true_intro. rewrite Z.leb_le, Z.ltb_lt. lia.
Qed.

Lemma invokeCtor_zero_data_witness :
  let d := getDescriptor sample_descs sample_block in
  CtorFn d = None /\ 0 <= getMetadataSize d /\ getMetadataSize d + getSize d <= getAllocSize d /\
  0 <= 23 < getSize d /\
  snd (invokeCtor 16 sample_descs 100 sample_block (fun _ => Byte.xaa))
      (data 16 sample_descs 100 sample_block + 23) = Byte.x00.
Proof.
  intros d.
  assert (H1 : CtorFn d = None) by reflexivity.
  assert (H2 : 0 <= getMetadataSize d) by (subst d; unfold getDescriptor, sample_descs; simpl; lia).
  assert (H3 : getMetadataSize d + getSize d <= getAllocSize d)
    by (subst d; unfold getDescriptor, sample_descs; simpl; lia).
  assert (H4 : 0 <= 23 < getSize d) by (subst d; unfold getDescriptor, sample_descs; simpl; lia).
  split; [exact H1|]. split; [exact H2|]. split; [exact H3|]. split; [exact H4|].
  exact (invokeCtor_zero_data 16 sample_descs 100 sample_block (fun _ => Byte.xaa) 23 H1 H2 H3 H4).
Defined.

Section LifecycleFacts.
Context (sizeof_Block : Z) (descs : Z -> Descriptor).

Lemma block_step_desc s op :
  BThis (block_step sizeof_Block descs s op) = BThis s /\
  Desc (BBlk (block_step sizeof_Block descs s op)) = Desc (BBlk s).
Proof.
  destruct op as [| |c]; [done|done|]. unfold block_step.
  destruct (chain_step_header (BBlk s) (BPtrs s) c) as [hd E].
  destruct (chain_step (BBlk s, BPtrs s) c) as [b' ptrs'].
  simpl in E. by subst b'.
Qed.

Lemma run_block_desc s ops :
  BThis (run_block sizeof_Block descs s ops) = BThis s /\
  Desc (BBlk (run_block sizeof_Block descs s ops)) = Desc (BBlk s).
Proof.
  revert s. induction ops as [|op ops IH]; intros s; [done|].
  change (run_block sizeof_Block descs s (op :: ops))
    with (run_block sizeof_Block descs (block_step sizeof_Block descs s op) ops).
  destruct (IH (block_step sizeof_Block descs s op)) as [H1 H2].
  destruct (block_step_desc s op) as [F1 F2]. split; congruence.
Qed.

Lemma run_block_lifecycle_ptrs s ops :
  lifecycle_only ops = true ->
  BPtrs (run_block sizeof_Block descs s ops) = BPtrs s /\
  Pointers (BBlk (run_block sizeof_Block descs s ops)) = Pointers (BBlk s).
Proof.
  revert s. induction ops as [|op ops IH]; intros s Hl; [done|].
  simpl in Hl. apply andb_true_iff in Hl as [Hop Hl].
  change (run_block sizeof_Block descs s (op :: ops))
    with (run_block sizeof_Block descs (block_step sizeof_Block descs s op) ops).
  destruct (IH (block_step sizeof_Block descs s op) Hl) as [H1 H2].
  rewrite H1, H2. destruct op as [| |c]; [done|done|discriminate].
Qed.

(** Without callbacks, construct and destroy change memory only inside the
    allocation of the block. *)
Lemma run_block_lifecycle_mem s ops a :
  let d := getDescriptor descs (BBlk s) in
  CtorFn d = None -> DtorFn d = None -> lifecycle_only ops = true ->
  (a < rawData sizeof_Block (BThis s) \/
   rawData sizeof_Block (BThis s) + getAllocSize d <= a) ->
  BMem (run_block sizeof_Block descs s ops) a = BMem s a.
Proof.
  intros d. subst d. revert s. induction ops as [|op ops IH]; intros s Hc Hd Hl Ha; [done|].
  simpl in Hl. apply andb_true_iff in Hl as [Hop Hl].
  change (run_block sizeof_Block descs s (op :: ops))
    with (run_block sizeof_Block descs (block_step sizeof_Block descs s op) ops).
  destruct (block_step_desc s op) as [T D].
  assert (Hg : getDescriptor descs (BBlk (block_step sizeof_Block descs s op)) =
               getDescriptor descs (BBlk s)) by (unfold getDescriptor; by rewrite D).
  rewrite (IH (block_step sizeof_Block descs s op)); rewrite ?Hg, ?T; try done.
  destruct op as [| |c]; [|simpl; unfold invokeDtor; by rewrite Hd|discriminate].
  simpl. unfold invokeCtor. rewrite Hc. simpl. unfold memset0.
  destruct (rawData sizeof_Block (BThis s) <=? a) eqn:E1;
    destruct (a <? rawData sizeof_Block (BThis s) + getAllocSize (getDescriptor descs (BBlk s))) eqn:E2;
    simpl; try reflexivity.
  rewrite Z.leb_le, Z.ltb_lt in *. lia.
Qed.

Lemma run_block_declid s ops :
  DeclID (BBlk (run_block sizeof_Block descs s ops)) = DeclID (BBlk s).
Proof.
  revert s. induction ops as [|op ops IH]; intros s; [done|].
  change (run_block sizeof_Block descs s (op :: ops))
    with (run_block sizeof_Block descs (block_step sizeof_Block descs s op) ops).
  rewrite IH. by destruct (block_step_flags sizeof_Block descs s op) as (_ & _ & _ & ->).
Qed.

Lemma memset0_agree (m1 m2 : Mem) p n :
  (forall a, a < p \/ p + n <= a -> m1 a = m2 a) ->
  memset0 m1 p n = memset0 m2 p n.
Proof.
  intros Hout. apply functional_extensionality. intros a. unfold memset0.
  destruct (p <=? a) eqn:E1; destruct (a <? p + n) eqn:E2; simpl; try reflexivity;
    apply Hout; rewrite ?Z.leb_le, ?Z.leb_gt, ?Z.ltb_lt, ?Z.ltb_ge in *; lia.
Qed.
End LifecycleFacts.

(** Construct and destroy never move the block's storage: whatever sequence
    of construct, destroy and pointer-chain calls runs on a block, its
    descriptor stays the same, so [data()], [getSize()] and
    [isTemporary()] give the same answers before and after. *)
Theorem layout_stable (sizeof_Block : Z) (descs : Z -> Descriptor) (s : BState)
    (ops : list BlockOp) :
  let s' := run_block sizeof_Block descs s ops in
  data sizeof_Block descs (BThis s') (BBlk s') = data sizeof_Block descs (BThis s) (BBlk s) /\
  getBlockSize descs (BBlk s') = getBlockSize descs (BBlk s) /\
  isTemporary descs (BBlk s') = isTemporary descs (BBlk s).
Proof.
  intros s'. destruct (run_block_desc sizeof_Block descs s ops) as [T D].
  subst s'. unfold data, getBlockSize, isTemporary, getDescriptor. rewrite T, D.
  repeat split.
Qed.


(** Without construct or destroy callbacks, constructing a block again
    after any history of construct and destroy calls gives the same block
    and memory as constructing it once from the start. *)
Theorem reconstruct_resets (sizeof_Block : Z) (descs : Z -> Descriptor) (s : BState)
    (ops : list BlockOp) :
  let d := getDescriptor descs (BBlk s) in
  CtorFn d = None -> DtorFn d = None -> lifecycle_only ops = true ->
  run_block sizeof_Block descs s (ops ++ [OpCtor]) = run_block sizeof_Block descs s [OpCtor].
Proof.
  intros d Hc Hd Hl. unfold run_block. rewrite fold_left_app.
  fold (run_block sizeof_Block descs s ops).
  set (s' := run_block sizeof_Block descs s ops).
  destruct (run_block_desc sizeof_Block descs s ops) as [T D].
  destruct (run_block_lifecycle_ptrs sizeof_Block descs s ops Hl) as [P1 P2].
  fold s' in T, D, P1, P2.
  assert (Hg : getDescriptor descs (BBlk s') = d) by (subst d; unfold getDescriptor; by rewrite D).
  simpl. unfold invokeCtor. rewrite Hg, T, P1. subst d. rewrite Hc.
  f_equal.
  - destruct (run_block_flags sizeof_Block descs s ops) as (F1 & F2 & F3).
    pose proof (run_block_declid sizeof_Block descs s ops) as F4.
    fold s' in F1, F2, F3, F4. unfold set_IsInitialized. congruence.
  - apply memset0_agree. intros a Ha. subst s'.
    apply run_block_lifecycle_mem; try done; by rewrite <- T.
Qed.


Lemma reconstruct_resets_witness :
  let s := mkBState 100 sample_block (fun _ => Byte.xaa) sample_ptrs in
  CtorFn (getDescriptor sample_descs (BBlk s)) = None /\
  DtorFn (getDescriptor sample_descs (BBlk s)) = None /\
  lifecycle_only [OpCtor; OpDtor] = true /\
  run_block 16 sample_descs s ([OpCtor; OpDtor] ++ [OpCtor]) = run_block 16 sample_descs s [OpCtor].
Proof.
  intros s.
  assert (H1 : CtorFn (getDescriptor sample_descs (BBlk s)) = None) by reflexivity.
  assert (H2 : DtorFn (getDescriptor sample_descs (BBlk s)) = None) by reflexivity.
  assert (H3 : lifecycle_only [OpCtor; OpDtor] = true) by reflexivity.
  split; [exact H1|]. split; [exact H2|]. split; [exact H3|].
  exact (reconstruct_resets 16 sample_descs s [OpCtor; OpDtor] H1 H2 H3).
Defined.
